(** * bitfields: bit-field codecs over 32-bit instruction words

    A shallow embedding of [bitfield.py].  Python integers are unbounded,
    so they are modelled as [Z]; the operators [&], [|], [<<] and [>>] are
    [Z.land], [Z.lor], [Z.shiftl] and [Z.shiftr], which agree with Python's
    two's-complement reading of negative integers.

    The module owns one piece of state, the logger [log]; it is threaded
    explicitly through every function that calls [log.debug].  A failing
    [assert] is an outcome of the call, not a value.  Assertions are taken
    as enabled (the interpreter's default mode). *)

From Stdlib Require Import ZArith Lia Bool List String.
Import ListNotations.

Local Open Scope Z_scope.

(** ** Outcomes of a call *)

(** [AssertionError] is what a failed [assert] raises; [ConstructionError]
    stands for the range/validation error of the [BitField] constructor. *)
Inductive Error : Type :=
| AssertionError
| ConstructionError.

Inductive Outcome (A : Type) : Type :=
| Ok (a : A)
| Raise (e : Error).

Arguments Ok {A} a.
Arguments Raise {A} e.

(** ** The module-level logger *)

Module Logging.

(** Numeric levels of the [logging] package. *)
Definition DEBUG : Z := 10.
Definition INFO : Z := 20.

(** An argument handed to [str.format]: an integer printed in decimal, or
    the text of [bin(n)]. *)
Inductive Arg : Type :=
| Int (n : Z)
| Bin (n : Z).

(** A record is kept as its format string with the arguments, unrendered. *)
Record LogRecord : Type := mkRecord {
  fmt : string;
  args : list Arg
}.

Record Logger : Type := mkLogger {
  level : Z;
  emitted : list LogRecord
}.

Definition setLevel (lvl : Z) (lg : Logger) : Logger :=
  mkLogger lvl (emitted lg).

Definition isEnabledFor (lvl : Z) (lg : Logger) : bool :=
  level lg <=? lvl.

(** [log.debug(msg)]: the record is emitted only when DEBUG is enabled. *)
Definition debug (r : LogRecord) (lg : Logger) : Logger :=
  if isEnabledFor DEBUG lg
  then mkLogger (level lg) (emitted lg ++ [r])
  else lg.

End Logging.

Import Logging.

(** [log = logging.getLogger(__name__); log.setLevel(logging.INFO)] *)
Definition log : Logger := setLevel INFO (mkLogger 0 []).

(** ** A state-and-exception monad over the logger

    The logger survives a raised exception: what was logged before a failed
    [assert] stays logged. *)

Definition M (A : Type) : Type := Logger -> Outcome A * Logger.

Definition ret {A} (a : A) : M A := fun lg => (Ok a, lg).

Definition bind {A B} (m : M A) (k : A -> M B) : M B :=
  fun lg =>
    match m lg with
    | (Ok a, lg') => k a lg'
    | (Raise e, lg') => (Raise e, lg')
    end.

Definition raise {A} (e : Error) : M A := fun lg => (Raise e, lg).

Definition log_debug (r : LogRecord) : M unit :=
  fun lg => (Ok tt, debug r lg).

Definition py_assert (b : bool) : M unit :=
  if b then ret tt else raise AssertionError.

Definition outcome {A} (r : Outcome A * Logger) : Outcome A := fst r.
Definition logger_after {A} (r : Outcome A * Logger) : Logger := snd r.

Declare Scope py_scope.
Delimit Scope py_scope with py.
Notation "x <- m ;; k" := (bind m (fun x => k))
  (at level 61, m at next level, right associativity) : py_scope.
Notation "m ;; k" := (bind m (fun _ => k))
  (at level 61, right associativity) : py_scope.

(** ** Shared constant *)

Definition WORD_SIZE : Z := 32.

(** ** sign_extend *)

(** Python truthiness of an integer: non-zero. *)
Definition truthy (n : Z) : bool := negb (n =? 0).

(** The two [assert]s run in order, so [1 << (width + 1)] and
    [1 << (width - 1)] are only ever evaluated with [width > 1]: the shift
    counts are positive and Python's shift never fails there. *)
Definition sign_extend (field width : Z) : M Z :=
  (log_debug (mkRecord "Sign extending {} ({}) in field of {} bits"
                       [Int field; Bin field; Int width]) ;;
   py_assert (width >? 1) ;;
   py_assert ((field >=? 0) && (field <? Z.shiftl 1 (width + 1))) ;;
   let sign_bit := Z.shiftl 1 (width - 1) in
   let mask := sign_bit - 1 in
   if truthy (Z.land field sign_bit) then
     log_debug (mkRecord "Complementing by subtracting 2^{}={}"
                         [Int (width - 1); Int sign_bit]) ;;
     let extended := Z.land field mask - sign_bit in
     log_debug (mkRecord "Should return {} ({})"
                         [Int extended; Bin extended]) ;;
     ret extended
   else
     ret field)%py.

(** ** BitField

    In [bitfield.py] the class body is a placeholder ([pass] followed by a
    FIXME comment describing the intended constructor and methods); the
    constructor, [insert], [extract] and [extract_signed] are not in the
    source.  They are modelled below from the specification. *)

Record BitField : Type := mkBitField {
  from_bit : Z;
  to_bit : Z;
  width : Z;
  value_mask : Z;
  field_mask : Z;
  hole_mask : Z
}.

(** Modelled from the spec: the constructor [BitField(from_bit, to_bit)],
    absent from the source.  It accepts exactly the bounds with
    [0 <= from_bit <= to_bit <= WORD_SIZE - 1] and fails with a construction
    error otherwise; [width = to_bit - from_bit + 1], [value_mask] has the low
    [width] bits set, [field_mask] is [value_mask] shifted left by [from_bit],
    and [hole_mask] is the complement of [field_mask] restricted to
    [WORD_SIZE] bits. *)
Definition BitField_init (from_bit to_bit : Z) : Outcome BitField :=
  if (0 <=? from_bit) && (from_bit <=? to_bit) && (to_bit <=? WORD_SIZE - 1)
  then
    let width := to_bit - from_bit + 1 in
    let value_mask := Z.shiftl 1 width - 1 in
    let field_mask := Z.shiftl value_mask from_bit in
    let hole_mask := Z.land (Z.lnot field_mask) (Z.shiftl 1 WORD_SIZE - 1) in
    Ok (mkBitField from_bit to_bit width value_mask field_mask hole_mask)
  else Raise ConstructionError.

(** Modelled from the spec: the method [insert(field_value, word)], absent
    from the source.  It clears the field's positions in [word] with
    [hole_mask], masks [field_value] with [value_mask], shifts it left by
    [from_bit] and ORs the two. *)
Definition insert (self : BitField) (field_value word : Z) : Z :=
  Z.lor (Z.land word (hole_mask self))
        (Z.shiftl (Z.land field_value (value_mask self)) (from_bit self)).

(** Modelled from the spec: the method [extract(word)], absent from the
    source.  It shifts [word] right by [from_bit] and masks with
    [value_mask]. *)
Definition extract (self : BitField) (word : Z) : Z :=
  Z.land (Z.shiftr word (from_bit self)) (value_mask self).

(** Modelled from the spec: the method [extract_signed(word)], absent from
    the source.  It applies [sign_extend] to the extracted value with the
    field's width. *)
Definition extract_signed (self : BitField) (word : Z) : M Z :=
  sign_extend (extract self word) (width self).

(** A word is an unsigned integer of [WORD_SIZE] bits. *)
Definition is_word (w : Z) : Prop := 0 <= w < 2 ^ WORD_SIZE.

(** * Properties *)

(** ** The value computed by sign_extend *)

(** What [sign_extend] yields, with the logging stripped away. *)
Definition sign_extend_value (field width : Z) : Outcome Z :=
  if width >? 1 then
    if (field >=? 0) && (field <? Z.shiftl 1 (width + 1)) then
      let sign_bit := Z.shiftl 1 (width - 1) in
      if truthy (Z.land field sign_bit)
      then Ok (Z.land field (sign_bit - 1) - sign_bit)
      else Ok field
    else Raise AssertionError
  else Raise AssertionError.

Ltac run_monad :=
  unfold outcome, logger_after, sign_extend, bind, log_debug, py_assert,
    ret, raise; simpl.

(** Push [Z.testbit] through the bitwise operators. *)
Ltac testbits :=
  repeat first
    [ rewrite Z.land_spec
    | rewrite Z.lor_spec
    | rewrite Z.lnot_spec by lia
    | rewrite Z.shiftl_spec by lia
    | rewrite Z.shiftr_spec by lia
    | rewrite Z.testbit_ones by lia ].

(** Decide every integer comparison that occurs in the goal. *)
Ltac split_comparisons :=
  repeat match goal with
  | |- context [?x <=? ?y] => destruct (Z.leb_spec x y)
  | |- context [?x <? ?y] => destruct (Z.ltb_spec x y)
  end.

Lemma sign_extend_outcome (field width : Z) (lg : Logger) :
  outcome (sign_extend field width lg) = sign_extend_value field width.
Proof.
  unfold sign_extend_value. run_monad.
  destruct (width >? 1); simpl; [|reflexivity].
  destruct ((field >=? 0) && (field <? Z.shiftl 1 (width + 1))); simpl;
    [|reflexivity].
  destruct (truthy (Z.land field (Z.shiftl 1 (width - 1)))); reflexivity.
Qed.

(** ** Bit-level facts *)

Lemma shiftl_1_pow2 (n : Z) : 0 <= n -> Z.shiftl 1 n = 2 ^ n.
Proof. intros Hn. rewrite Z.shiftl_mul_pow2 by assumption. lia. Qed.

Lemma land_pow2 (a n : Z) :
  0 <= n -> Z.land a (2 ^ n) = if Z.testbit a n then 2 ^ n else 0.
Proof.
  intros Hn. apply Z.bits_inj'; intros i Hi.
  rewrite Z.land_spec, Z.pow2_bits_eqb by assumption.
  destruct (Z.eqb_spec n i) as [->|Hne].
  - destruct (Z.testbit a i); simpl.
    + rewrite Z.pow2_bits_true by assumption. reflexivity.
    + rewrite Z.bits_0. reflexivity.
  - rewrite andb_false_r.
    destruct (Z.testbit a n).
    + rewrite Z.pow2_bits_false by assumption. reflexivity.
    + rewrite Z.bits_0. reflexivity.
Qed.

Lemma truthy_land_pow2 (a n : Z) :
  0 <= n -> truthy (Z.land a (2 ^ n)) = Z.testbit a n.
Proof.
  intros Hn. unfold truthy. rewrite land_pow2 by assumption.
  assert (0 < 2 ^ n) by (apply Z.pow_pos_nonneg; lia).
  destruct (Z.testbit a n); simpl.
  - destruct (Z.eqb_spec (2 ^ n) 0); [lia | reflexivity].
  - reflexivity.
Qed.

Lemma pow2_succ (n : Z) : 0 <= n -> 2 ^ (n + 1) = 2 * 2 ^ n.
Proof. intros Hn. rewrite Z.pow_add_r by lia. lia. Qed.

(** The top bit of an [n+1]-bit value decides on which side of [2^n] it
    lies. *)
Lemma testbit_top (a n : Z) :
  0 <= n -> 0 <= a < 2 ^ (n + 1) ->
  Z.testbit a n = (2 ^ n <=? a).
Proof.
  intros Hn Ha.
  assert (Hp : 0 < 2 ^ n) by (apply Z.pow_pos_nonneg; lia).
  rewrite pow2_succ in Ha by assumption.
  destruct (Z.leb_spec (2 ^ n) a) as [Hle|Hlt].
  - apply Z.testbit_true; [assumption|].
    assert (a / 2 ^ n = 1) as ->; [|reflexivity].
    symmetry. apply Z.div_unique with (r := a - 2 ^ n); lia.
  - apply Z.testbit_false; [assumption|].
    rewrite Z.div_small by lia. reflexivity.
Qed.

Lemma land_low_mask (a n : Z) :
  0 <= n -> Z.land a (2 ^ n - 1) = a mod 2 ^ n.
Proof.
  intros Hn. rewrite <- Z.land_ones by assumption.
  rewrite Z.ones_equiv, Z.sub_1_r. reflexivity.
Qed.

(** Every input that passes both assertions yields a value, selected by the
    bit at position [width - 1]. *)
Lemma sign_extend_value_accepted (field width : Z) :
  width > 1 -> 0 <= field < 2 ^ (width + 1) ->
  sign_extend_value field width =
  Ok (if Z.testbit field (width - 1)
      then field mod 2 ^ (width - 1) - 2 ^ (width - 1)
      else field).
Proof.
  intros Hw Hf. unfold sign_extend_value.
  rewrite !shiftl_1_pow2 by lia.
  destruct (Z.gtb_spec width 1) as [_|]; [|lia].
  destruct (Z.geb_spec field 0) as [_|]; [|lia].
  destruct (Z.ltb_spec field (2 ^ (width + 1))) as [_|]; [|lia].
  simpl. rewrite truthy_land_pow2, land_low_mask by lia.
  destruct (Z.testbit field (width - 1)); reflexivity.
Qed.

(** The inputs the two assertions turn away. *)
Lemma sign_extend_value_rejected (field width : Z) :
  width <= 1 \/ field < 0 \/ (1 < width /\ 2 ^ (width + 1) <= field) ->
  sign_extend_value field width = Raise AssertionError.
Proof.
  intros H. unfold sign_extend_value.
  destruct (Z.gtb_spec width 1) as [Hw|]; [|reflexivity].
  rewrite shiftl_1_pow2 by lia.
  destruct (Z.geb_spec field 0) as [Hf|]; simpl; [|reflexivity].
  destruct (Z.ltb_spec field (2 ^ (width + 1))) as [Hlt|]; [|reflexivity].
  lia.
Qed.

(** ** sign_extend on its documented domain *)

(** C4: for [width > 1] and [0 <= field < 2^width], [sign_extend] returns
    [field] unchanged when [field & (1 << (width - 1))] is zero and
    [field - 2^width] otherwise; either way the result lies in
    [-2^(width-1) .. 2^(width-1) - 1]. *)
Theorem sign_extend_in_contract (field width : Z) (lg : Logger) :
  width > 1 -> 0 <= field < 2 ^ width ->
  (Z.land field (Z.shiftl 1 (width - 1)) = 0 ->
   outcome (sign_extend field width lg) = Ok field) /\
  (Z.land field (Z.shiftl 1 (width - 1)) <> 0 ->
   outcome (sign_extend field width lg) = Ok (field - 2 ^ width)) /\
  (exists r, outcome (sign_extend field width lg) = Ok r /\
             - 2 ^ (width - 1) <= r <= 2 ^ (width - 1) - 1).
Proof.
  intros Hw Hf.
  assert (Hp : 0 < 2 ^ (width - 1)) by (apply Z.pow_pos_nonneg; lia).
  assert (Hd : 2 ^ width = 2 * 2 ^ (width - 1)).
  { rewrite <- pow2_succ by lia. f_equal. lia. }
  assert (Hd' : 2 ^ (width + 1) = 2 * 2 ^ width) by (apply pow2_succ; lia).
  rewrite sign_extend_outcome, sign_extend_value_accepted by lia.
  rewrite shiftl_1_pow2, land_pow2 by lia.
  rewrite (testbit_top field (width - 1)) by
    (replace (width - 1 + 1) with width by lia; lia).
  destruct (Z.leb_spec (2 ^ (width - 1)) field) as [Hle|Hlt].
  - assert (Hm : field mod 2 ^ (width - 1) = field - 2 ^ (width - 1)).
    { symmetry. apply Z.mod_unique with (q := 1); lia. }
    rewrite Hm. repeat split.
    + intros H0. lia.
    + intros _. f_equal. lia.
    + eexists. split; [reflexivity | lia].
  - repeat split.
    + intros H0. congruence.
    + eexists. split; [reflexivity | lia].
Qed.

Lemma sign_extend_in_contract_witness :
  3 > 1 /\ 0 <= 5 < 2 ^ 3 /\
  outcome (sign_extend 5 3 log) = Ok (5 - 2 ^ 3).
Proof.
  assert (Hw : 3 > 1) by lia.
  assert (Hf : 0 <= 5 < 2 ^ 3) by (simpl; lia).
  split; [exact Hw | split; [exact Hf |]].
  apply (sign_extend_in_contract 5 3 log Hw Hf).
  simpl. discriminate.
Defined.

(** C6: the worked values: [0b111], [0b011] and [0b100] in a 3-bit field
    are [-1], [3] and [-4]; the pattern [7] in a 4-bit field stays [7]. *)
Theorem sign_extend_examples (lg : Logger) :
  outcome (sign_extend 7 3 lg) = Ok (-1) /\
  outcome (sign_extend 3 3 lg) = Ok 3 /\
  outcome (sign_extend 4 3 lg) = Ok (-4) /\
  outcome (sign_extend 7 4 lg) = Ok 7.
Proof.
  rewrite !sign_extend_outcome. repeat split; reflexivity.
Qed.

(** ** The logger does not influence the result *)

(** With DEBUG disabled, as the module configures it, nothing is logged. *)
Lemma sign_extend_silent (field width : Z) (lg : Logger) :
  isEnabledFor DEBUG lg = false ->
  logger_after (sign_extend field width lg) = lg.
Proof.
  intros Hoff.
  assert (Hdebug : forall r, debug r lg = lg)
    by (intros r; unfold debug; rewrite Hoff; reflexivity).
  run_monad. rewrite Hdebug.
  destruct (width >? 1); simpl; [|reflexivity].
  destruct ((field >=? 0) && (field <? Z.shiftl 1 (width + 1))); simpl;
    [|reflexivity].
  destruct (truthy (Z.land field (Z.shiftl 1 (width - 1)))); simpl;
    [|reflexivity].
  rewrite !Hdebug. reflexivity.
Qed.

(** C8: [sign_extend] is a function of [field] and [width] alone: two calls
    with the same arguments have the same result (value or failure),
    whatever state the module's logger is in at each call. *)
Theorem sign_extend_deterministic (field width : Z) (lg1 lg2 : Logger) :
  outcome (sign_extend field width lg1) =
  outcome (sign_extend field width lg2).
Proof.
  rewrite (sign_extend_outcome field width lg1).
  rewrite (sign_extend_outcome field width lg2).
  reflexivity.
Qed.

(** ** What the assertions really accept *)

(** C5, at the input where it fails: [8] does not fit in 3 bits, yet
    [sign_extend(8, 3)] raises nothing and returns [8]. *)
Theorem sign_extend_overwide_not_rejected (lg : Logger) :
  ~ (0 <= 8 < 2 ^ 3) /\ outcome (sign_extend 8 3 lg) = Ok 8.
Proof.
  split.
  - simpl. lia.
  - rewrite sign_extend_outcome. reflexivity.
Qed.

(** The part of the precondition that is enforced: [width <= 1], a negative
    [field], or a [field] of [2^(width+1)] and more. *)
Lemma sign_extend_rejects (field width : Z) (lg : Logger) :
  width <= 1 \/ field < 0 \/ (1 < width /\ 2 ^ (width + 1) <= field) ->
  outcome (sign_extend field width lg) = Raise AssertionError.
Proof.
  intros H. rewrite sign_extend_outcome.
  apply sign_extend_value_rejected. exact H.
Qed.

(** C9: for [width > 1] every [field] with [0 <= field < 2^(width+1)] passes
    both assertions and a value is returned; [2^width], which needs
    [width + 1] bits, is among them. *)
Theorem sign_extend_accepts_one_bit_more (field width : Z) (lg : Logger) :
  width > 1 -> 0 <= field < 2 ^ (width + 1) ->
  (exists r, outcome (sign_extend field width lg) = Ok r) /\
  (exists r, outcome (sign_extend (2 ^ width) width lg) = Ok r).
Proof.
  intros Hw Hf. split.
  - rewrite sign_extend_outcome, sign_extend_value_accepted by lia.
    eexists. reflexivity.
  - assert (0 < 2 ^ width) by (apply Z.pow_pos_nonneg; lia).
    rewrite sign_extend_outcome, sign_extend_value_accepted;
      [eexists; reflexivity | lia | rewrite pow2_succ by lia; lia].
Qed.

Lemma sign_extend_accepts_one_bit_more_witness :
  3 > 1 /\ 0 <= 13 < 2 ^ (3 + 1) /\
  (exists r, outcome (sign_extend 13 3 log) = Ok r) /\
  (exists r, outcome (sign_extend (2 ^ 3) 3 log) = Ok r).
Proof.
  assert (Hw : 3 > 1) by lia.
  assert (Hf : 0 <= 13 < 2 ^ (3 + 1)) by (simpl; lia).
  split; [exact Hw | split; [exact Hf |]].
  exact (sign_extend_accepts_one_bit_more 13 3 log Hw Hf).
Defined.

(** C10: for [width > 1], a [field] in [2^width .. 2^(width+1) - 1] whose bit
    [width - 1] is clear comes back unchanged, above the largest signed value
    [2^(width-1) - 1] of the field. *)
Theorem sign_extend_overwide_unchanged (field width : Z) (lg : Logger) :
  width > 1 -> 2 ^ width <= field < 2 ^ (width + 1) ->
  Z.testbit field (width - 1) = false ->
  outcome (sign_extend field width lg) = Ok field /\
  field > 2 ^ (width - 1) - 1.
Proof.
  intros Hw Hf Hbit.
  assert (Hp : 0 < 2 ^ (width - 1)) by (apply Z.pow_pos_nonneg; lia).
  assert (Hd : 2 ^ width = 2 * 2 ^ (width - 1)).
  { rewrite <- pow2_succ by lia. f_equal. lia. }
  split; [|lia].
  rewrite sign_extend_outcome, sign_extend_value_accepted by lia.
  rewrite Hbit. reflexivity.
Qed.

Lemma sign_extend_overwide_unchanged_witness :
  3 > 1 /\ 2 ^ 3 <= 8 < 2 ^ (3 + 1) /\ Z.testbit 8 (3 - 1) = false /\
  outcome (sign_extend 8 3 log) = Ok 8 /\ 8 > 2 ^ (3 - 1) - 1.
Proof.
  assert (Hw : 3 > 1) by lia.
  assert (Hf : 2 ^ 3 <= 8 < 2 ^ (3 + 1)) by (simpl; lia).
  assert (Hb : Z.testbit 8 (3 - 1) = false) by reflexivity.
  split; [exact Hw | split; [exact Hf | split; [exact Hb |]]].
  exact (sign_extend_overwide_unchanged 8 3 log Hw Hf Hb).
Defined.

(** ** BitField construction *)

Lemma mask_is_ones (n : Z) : Z.shiftl 1 n - 1 = Z.ones n.
Proof. unfold Z.ones. lia. Qed.

Lemma BitField_init_inv (a b : Z) (f : BitField) :
  BitField_init a b = Ok f ->
  0 <= a <= b /\ b <= WORD_SIZE - 1 /\
  f = mkBitField a b (b - a + 1)
        (Z.ones (b - a + 1))
        (Z.shiftl (Z.ones (b - a + 1)) a)
        (Z.land (Z.lnot (Z.shiftl (Z.ones (b - a + 1)) a)) (Z.ones WORD_SIZE)).
Proof.
  unfold BitField_init.
  destruct (Z.leb_spec 0 a); [|discriminate].
  destruct (Z.leb_spec a b); [|discriminate].
  destruct (Z.leb_spec b (WORD_SIZE - 1)); [|discriminate].
  cbv beta iota zeta delta [andb]. intros Hf. injection Hf as <-.
  rewrite !mask_is_ones. repeat split; assumption.
Qed.

(** C3: construction succeeds exactly for [0 <= from_bit <= to_bit <= 31];
    [BitField(4, 7)] is built with width 4, while [BitField(30, 35)] and
    [BitField(5, 2)] fail with a construction error. *)
Theorem BitField_init_validation :
  (forall a b, (exists f, BitField_init a b = Ok f) <->
               0 <= a /\ a <= b /\ b <= 31) /\
  (exists f, BitField_init 4 7 = Ok f /\ width f = 4) /\
  BitField_init 30 35 = Raise ConstructionError /\
  BitField_init 5 2 = Raise ConstructionError.
Proof.
  split; [|split; [|split]].
  - intros a b. split.
    + intros [f Hf]. apply BitField_init_inv in Hf. unfold WORD_SIZE in Hf. lia.
    + intros Hab. unfold BitField_init, WORD_SIZE.
      destruct (Z.leb_spec 0 a); [|lia].
      destruct (Z.leb_spec a b); [|lia].
      destruct (Z.leb_spec b (32 - 1)); [|lia].
      simpl. eexists. reflexivity.
  - eexists. split; reflexivity.
  - reflexivity.
  - reflexivity.
Qed.

(** C7: with the field on bits 4..7, inserting [0x0f] into [0xaa00aa00]
    gives [0xaa00aaf0]. *)
Theorem insert_documented_example :
  exists f, BitField_init 4 7 = Ok f /\
            insert f 0x0f 0xaa00aa00 = 0xaa00aaf0.
Proof. eexists. split; reflexivity. Qed.

(** ** insert and extract on a constructed field *)

Lemma word_high_bits (w i : Z) :
  is_word w -> WORD_SIZE <= i -> Z.testbit w i = false.
Proof.
  unfold is_word, WORD_SIZE. intros Hw Hi.
  rewrite <- (Z.mod_small w (2 ^ 32)) by assumption.
  apply Z.mod_pow2_bits_high. lia.
Qed.

Section Constructed.

Variables (a b : Z) (f : BitField).
Hypothesis Hinit : BitField_init a b = Ok f.

(** C1: extracting after an insert gives back the low [width] bits of the
    inserted value, for any word and any integer value. *)
Theorem extract_insert (v w : Z) :
  extract f (insert f v w) = Z.land v (Z.shiftl 1 (width f) - 1).
Proof.
  destruct (BitField_init_inv a b f Hinit) as (Hab & Hb & ->).
  unfold extract, insert, WORD_SIZE in *. simpl.
  rewrite mask_is_ones.
  apply Z.bits_inj'. intros i Hi.
  testbits. replace (i + a - a) with i by lia.
  split_comparisons; simpl; try lia;
    rewrite ?andb_false_r, ?andb_true_r; reflexivity.
Qed.

(** C2: inserting into a word leaves every bit outside
    [from_bit .. to_bit] as it was. *)
Theorem insert_frame (v w i : Z) :
  is_word w ->
  i < from_bit f \/ to_bit f < i ->
  Z.testbit (insert f v w) i = Z.testbit w i.
Proof.
  destruct (BitField_init_inv a b f Hinit) as (Hab & Hb & ->).
  unfold insert. simpl. intros Hw Hout.
  destruct (Z.lt_ge_cases i 0) as [Hneg|Hi].
  { rewrite !Z.testbit_neg_r by assumption. reflexivity. }
  destruct (Z.lt_ge_cases i WORD_SIZE) as [Hlow|Hhigh].
  - unfold WORD_SIZE in *. testbits.
    split_comparisons; simpl; try lia;
      rewrite ?andb_false_r, ?andb_true_r, ?orb_false_r; reflexivity.
  - rewrite (word_high_bits w i Hw Hhigh).
    unfold WORD_SIZE in *. testbits.
    split_comparisons; simpl; try lia;
      rewrite ?andb_false_r, ?andb_true_r, ?orb_false_r; reflexivity.
Qed.

End Constructed.

Lemma extract_insert_witness :
  BitField_init 4 7 =
    Ok (mkBitField 4 7 4 15 240 4294967055) /\
  extract (mkBitField 4 7 4 15 240 4294967055)
    (insert (mkBitField 4 7 4 15 240 4294967055) 0x1f5 0xaa00aa00)
  = Z.land 0x1f5 (Z.shiftl 1 4 - 1).
Proof.
  assert (H : BitField_init 4 7 = Ok (mkBitField 4 7 4 15 240 4294967055))
    by reflexivity.
  split; [exact H |].
  exact (extract_insert 4 7 _ H 0x1f5 0xaa00aa00).
Defined.

Lemma insert_frame_witness :
  BitField_init 4 7 =
    Ok (mkBitField 4 7 4 15 240 4294967055) /\
  is_word 0xaa00aa00 /\ (3 < 4 \/ 7 < 3) /\
  Z.testbit (insert (mkBitField 4 7 4 15 240 4294967055) 0x0f 0xaa00aa00) 3
  = Z.testbit 0xaa00aa00 3.
Proof.
  assert (H : BitField_init 4 7 = Ok (mkBitField 4 7 4 15 240 4294967055))
    by reflexivity.
  assert (Hw : is_word 0xaa00aa00) by (unfold is_word; simpl; lia).
  assert (Hi : 3 < 4 \/ 7 < 3) by (left; lia).
  split; [exact H | split; [exact Hw | split; [exact Hi |]]].
  exact (insert_frame 4 7 _ H 0x0f 0xaa00aa00 3 Hw Hi).
Defined.

(** * Further properties of sign_extend *)

(** On the documented domain the branch taken is decided by comparing
    [field] with [2^(width-1)]. *)
Lemma sign_extend_value_in_contract (field width : Z) :
  width > 1 -> 0 <= field < 2 ^ width ->
  sign_extend_value field width =
  Ok (if 2 ^ (width - 1) <=? field then field - 2 ^ width else field).
Proof.
  intros Hw Hf.
  assert (Hp : 0 < 2 ^ (width - 1)) by (apply Z.pow_pos_nonneg; lia).
  assert (Hd : 2 ^ width = 2 * 2 ^ (width - 1)).
  { rewrite <- pow2_succ by lia. f_equal. lia. }
  assert (Hd' : 2 ^ (width + 1) = 2 * 2 ^ width) by (apply pow2_succ; lia).
  rewrite sign_extend_value_accepted by lia.
  rewrite (testbit_top field (width - 1)) by
    (replace (width - 1 + 1) with width by lia; lia).
  destruct (Z.leb_spec (2 ^ (width - 1)) field) as [Hle|Hlt]; [|reflexivity].
  f_equal.
  assert (field mod 2 ^ (width - 1) = field - 2 ^ (width - 1)); [|lia].
  symmetry. apply Z.mod_unique with (q := 1); lia.
Qed.

(** The low [n] bits of [a], as Python's [a & ((1 << n) - 1)]. *)
Lemma land_mask_mod (a n : Z) :
  0 <= n -> Z.land a (Z.shiftl 1 n - 1) = a mod 2 ^ n.
Proof.
  intros Hn. rewrite mask_is_ones. apply Z.land_ones. assumption.
Qed.

(** ** Which calls fail *)


(** ** Decoding and encoding are inverse on the documented domain *)

(** X2: for [width > 1] and [0 <= field < 2^width], masking the result back
    to [width] bits, [sign_extend(field, width) & ((1 << width) - 1)], gives
    [field] again. *)
Theorem sign_extend_mask_roundtrip (field width : Z) (lg : Logger) :
  width > 1 -> 0 <= field < 2 ^ width ->
  exists r, outcome (sign_extend field width lg) = Ok r /\
            Z.land r (Z.shiftl 1 width - 1) = field.
Proof.
  intros Hw Hf.
  rewrite sign_extend_outcome, sign_extend_value_in_contract by assumption.
  eexists. split; [reflexivity|].
  rewrite land_mask_mod by lia.
  destruct (Z.leb_spec (2 ^ (width - 1)) field).
  - symmetry. apply Z.mod_unique with (q := -1); lia.
  - apply Z.mod_small. assumption.
Qed.

Lemma sign_extend_mask_roundtrip_witness :
  3 > 1 /\ 0 <= 6 < 2 ^ 3 /\
  exists r, outcome (sign_extend 6 3 log) = Ok r /\
            Z.land r (Z.shiftl 1 3 - 1) = 6.
Proof.
  assert (Hw : 3 > 1) by lia.
  assert (Hf : 0 <= 6 < 2 ^ 3) by (simpl; lia).
  split; [exact Hw | split; [exact Hf |]].
  exact (sign_extend_mask_roundtrip 6 3 log Hw Hf).
Defined.

(** X3: for [width > 1], every signed value [r] with
    [-2^(width-1) <= r < 2^(width-1)] is recovered from its [width]-bit
    two's-complement pattern: [sign_extend(r & ((1 << width) - 1), width)]
    returns [r]. *)
Theorem sign_extend_encode_roundtrip (r width : Z) (lg : Logger) :
  width > 1 -> - 2 ^ (width - 1) <= r < 2 ^ (width - 1) ->
  outcome (sign_extend (Z.land r (Z.shiftl 1 width - 1)) width lg) = Ok r.
Proof.
  intros Hw Hr.
  assert (Hp : 0 < 2 ^ (width - 1)) by (apply Z.pow_pos_nonneg; lia).
  assert (Hd : 2 ^ width = 2 * 2 ^ (width - 1)).
  { rewrite <- pow2_succ by lia. f_equal. lia. }
  rewrite land_mask_mod by lia.
  assert (Hm : r mod 2 ^ width = if r <? 0 then r + 2 ^ width else r).
  { destruct (Z.ltb_spec r 0).
    - symmetry. apply Z.mod_unique with (q := -1); lia.
    - apply Z.mod_small. lia. }
  rewrite sign_extend_outcome, sign_extend_value_in_contract;
    [| lia | apply Z.mod_pos_bound; lia].
  rewrite Hm. f_equal.
  destruct (Z.ltb_spec r 0);
    destruct (Z.leb_spec (2 ^ (width - 1)) (r + 2 ^ width));
    destruct (Z.leb_spec (2 ^ (width - 1)) r); lia.
Qed.

Lemma sign_extend_encode_roundtrip_witness :
  3 > 1 /\ - 2 ^ (3 - 1) <= -3 < 2 ^ (3 - 1) /\
  outcome (sign_extend (Z.land (-3) (Z.shiftl 1 3 - 1)) 3 log) = Ok (-3).
Proof.
  assert (Hw : 3 > 1) by lia.
  assert (Hr : - 2 ^ (3 - 1) <= -3 < 2 ^ (3 - 1)) by (simpl; lia).
  split; [exact Hw | split; [exact Hr |]].
  exact (sign_extend_encode_roundtrip (-3) 3 log Hw Hr).
Defined.

(** X4: on the documented domain distinct fields decode to distinct values:
    if two calls with the same [width > 1] and fields in [0 .. 2^width - 1]
    have the same result, the fields are equal. *)
Theorem sign_extend_injective (f1 f2 width : Z) (lg1 lg2 : Logger) :
  width > 1 -> 0 <= f1 < 2 ^ width -> 0 <= f2 < 2 ^ width ->
  outcome (sign_extend f1 width lg1) = outcome (sign_extend f2 width lg2) ->
  f1 = f2.
Proof.
  intros Hw H1 H2.
  rewrite !sign_extend_outcome, !sign_extend_value_in_contract by assumption.
  intros Heq. injection Heq as Heq.
  destruct (Z.leb_spec (2 ^ (width - 1)) f1);
    destruct (Z.leb_spec (2 ^ (width - 1)) f2); lia.
Qed.

Lemma sign_extend_injective_witness :
  3 > 1 /\ 0 <= 5 < 2 ^ 3 /\
  outcome (sign_extend 5 3 log) = outcome (sign_extend 5 3 (setLevel DEBUG log))
  /\ 5 = 5.
Proof.
  assert (Hw : 3 > 1) by lia.
  assert (Hf : 0 <= 5 < 2 ^ 3) by (simpl; lia).
  assert (He : outcome (sign_extend 5 3 log) =
               outcome (sign_extend 5 3 (setLevel DEBUG log))) by reflexivity.
  split; [exact Hw | split; [exact Hf | split; [exact He |]]].
  exact (sign_extend_injective 5 5 3 log (setLevel DEBUG log) Hw Hf Hf He).
Defined.

(** ** The whole accepted domain *)

(** X5: for every accepted input ([width > 1], [0 <= field < 2^(width+1)])
    the result is negative exactly when bit [width - 1] of [field] is set. *)
Theorem sign_extend_negative_iff_sign_bit (field width : Z) (lg : Logger) :
  width > 1 -> 0 <= field < 2 ^ (width + 1) ->
  exists r, outcome (sign_extend field width lg) = Ok r /\
            (r < 0 <-> Z.testbit field (width - 1) = true).
Proof.
  intros Hw Hf.
  assert (Hp : 0 < 2 ^ (width - 1)) by (apply Z.pow_pos_nonneg; lia).
  rewrite sign_extend_outcome, sign_extend_value_accepted by assumption.
  eexists. split; [reflexivity|].
  destruct (Z.testbit field (width - 1)).
  - pose proof (Z.mod_pos_bound field (2 ^ (width - 1)) Hp).
    split; [reflexivity | lia].
  - split; [lia | discriminate].
Qed.

Lemma sign_extend_negative_iff_sign_bit_witness :
  3 > 1 /\ 0 <= 12 < 2 ^ (3 + 1) /\
  exists r, outcome (sign_extend 12 3 log) = Ok r /\
            (r < 0 <-> Z.testbit 12 (3 - 1) = true).
Proof.
  assert (Hw : 3 > 1) by lia.
  assert (Hf : 0 <= 12 < 2 ^ (3 + 1)) by (simpl; lia).
  split; [exact Hw | split; [exact Hf |]].
  exact (sign_extend_negative_iff_sign_bit 12 3 log Hw Hf).
Defined.

(** A value of [n + 2] bits whose bits [n + 1] and [n] are both set is at
    least [3 * 2^n]. *)
Lemma top_two_bits (x n : Z) :
  0 <= n -> 2 * 2 ^ n <= x < 4 * 2 ^ n -> Z.testbit x n = true ->
  3 * 2 ^ n <= x.
Proof.
  intros Hn Hx Hbit.
  assert (Hp : 0 < 2 ^ n) by (apply Z.pow_pos_nonneg; lia).
  apply Z.testbit_true in Hbit; [|assumption].
  assert (Hlo : 2 <= x / 2 ^ n) by (apply Z.div_le_lower_bound; lia).
  assert (Hhi : x / 2 ^ n < 4) by (apply Z.div_lt_upper_bound; lia).
  assert (Hq : x / 2 ^ n = 3).
  { destruct (Z.eq_dec (x / 2 ^ n) 2) as [E|E]; [|lia].
    rewrite E in Hbit. discriminate. }
  pose proof (Z.mul_div_le x (2 ^ n) Hp) as Hle.
  rewrite Hq in Hle. lia.
Qed.

(** X6: an over-wide field ([2^width <= field < 2^(width+1)]) whose bit
    [width - 1] is set loses its extra bit: the result is
    [field - 2^(width+1)], a negative value of the signed range, the same as
    for the in-range field [field - 2^width]. *)
Theorem sign_extend_overwide_sign_set (field width : Z) (lg : Logger) :
  width > 1 -> 2 ^ width <= field < 2 ^ (width + 1) ->
  Z.testbit field (width - 1) = true ->
  outcome (sign_extend field width lg) = Ok (field - 2 ^ (width + 1)) /\
  outcome (sign_extend field width lg) =
    outcome (sign_extend (field - 2 ^ width) width lg) /\
  - 2 ^ (width - 1) <= field - 2 ^ (width + 1) < 0.
Proof.
  intros Hw Hf Hbit.
  assert (Hp : 0 < 2 ^ (width - 1)) by (apply Z.pow_pos_nonneg; lia).
  assert (Hd : 2 ^ width = 2 * 2 ^ (width - 1)).
  { rewrite <- pow2_succ by lia. f_equal. lia. }
  assert (Hd' : 2 ^ (width + 1) = 2 * 2 ^ width) by (apply pow2_succ; lia).
  assert (H3 : 3 * 2 ^ (width - 1) <= field)
    by (apply top_two_bits; [lia | lia | assumption]).
  assert (Hm : field mod 2 ^ (width - 1) = field - 3 * 2 ^ (width - 1)).
  { symmetry. apply Z.mod_unique with (q := 3); lia. }
  assert (Hres : outcome (sign_extend field width lg) =
                 Ok (field - 2 ^ (width + 1))).
  { rewrite sign_extend_outcome, sign_extend_value_accepted by lia.
    rewrite Hbit, Hm. f_equal. lia. }
  split; [exact Hres | split; [|lia]].
  rewrite Hres, sign_extend_outcome, sign_extend_value_in_contract by lia.
  destruct (Z.leb_spec (2 ^ (width - 1)) (field - 2 ^ width)); [|lia].
  f_equal. lia.
Qed.

Lemma sign_extend_overwide_sign_set_witness :
  3 > 1 /\ 2 ^ 3 <= 12 < 2 ^ (3 + 1) /\ Z.testbit 12 (3 - 1) = true /\
  outcome (sign_extend 12 3 log) = Ok (12 - 2 ^ (3 + 1)) /\
  outcome (sign_extend 12 3 log) = outcome (sign_extend (12 - 2 ^ 3) 3 log) /\
  - 2 ^ (3 - 1) <= 12 - 2 ^ (3 + 1) < 0.
Proof.
  assert (Hw : 3 > 1) by lia.
  assert (Hf : 2 ^ 3 <= 12 < 2 ^ (3 + 1)) by (simpl; lia).
  assert (Hb : Z.testbit 12 (3 - 1) = true) by reflexivity.
  split; [exact Hw | split; [exact Hf | split; [exact Hb |]]].
  exact (sign_extend_overwide_sign_set 12 3 log Hw Hf Hb).
Defined.

(** ** What reaches the logger *)

(** X7: with the logger's level above DEBUG, as the module sets it (INFO), a
    call leaves the logger as it found it, whether it returns or raises. *)
Theorem sign_extend_quiet_above_DEBUG (field width : Z) (lg : Logger) :
  DEBUG < level lg ->
  logger_after (sign_extend field width lg) = lg.
Proof.
  intros Hlvl. apply sign_extend_silent.
  unfold isEnabledFor. destruct (Z.leb_spec (level lg) DEBUG); [lia|].
  reflexivity.
Qed.

Lemma sign_extend_quiet_above_DEBUG_witness :
  DEBUG < level log /\ logger_after (sign_extend 7 3 log) = log.
Proof.
  assert (Hlvl : DEBUG < level log) by reflexivity.
  split; [exact Hlvl |].
  exact (sign_extend_quiet_above_DEBUG 7 3 log Hlvl).
Defined.


